(** * WebPageAI: context-budget enforcement and answer assembly of [src/main.py]

    Shallow embedding of [_enforce_site_data_limit] and [ask_question].
    A Python [str] is a list of Unicode code points, a [dict[str, str]] an
    insertion-ordered association list (Python dicts keep insertion order). *)

From Stdlib Require Import String Ascii.
From Stdlib Require Import List NArith ZArith Lia Bool Permutation Sorted.
Import ListNotations.

(** ** Python strings *)

Definition pystr := list N.

(** ASCII literal of the source as a Python string. *)
Fixpoint lit (s : string) : pystr :=
  match s with
  | EmptyString => []
  | String c rest => N_of_ascii c :: lit rest
  end.

Fixpoint pystr_eqb (a b : pystr) : bool :=
  match a, b with
  | [], [] => true
  | x :: a', y :: b' => N.eqb x y && pystr_eqb a' b'
  | _, _ => false
  end.


(** ** [repr] of a [str] (CPython [unicode_repr]) *)

(** [Py_hexdigits = "0123456789abcdef"] *)
Definition hexdigit (n : N) : N := if (n <? 10)%N then (48 + n)%N else (87 + n)%N.
Definition hex_at (ch shift : N) : N := hexdigit (N.land (N.shiftr ch shift) 15).

(** A dict entry [(key, value)] and a [dict[str, str]]. *)
Abbreviation entry := (pystr * pystr)%type.
Abbreviation dict := (list entry).
(** The dict objects of the process, a reference being an index. *)
Abbreviation heap := (list dict).

Section Repr.

(** [Py_UNICODE_ISPRINTABLE], from the Unicode database. *)
Variable isprintable : N -> bool.

(** Output of one code point, given the chosen quote character. *)
Definition repr_char (quote ch : N) : pystr :=
  if (ch =? quote)%N || (ch =? 92)%N then [92; ch]%N
  else if (ch =? 9)%N then [92; 116]%N
  else if (ch =? 10)%N then [92; 110]%N
  else if (ch =? 13)%N then [92; 114]%N
  else if (ch <? 32)%N || (ch =? 127)%N then [92; 120; hex_at ch 4; hex_at ch 0]%N
  else if (ch <? 127)%N then [ch]
  else if isprintable ch then [ch]
  else if (ch <=? 255)%N then [92; 120; hex_at ch 4; hex_at ch 0]%N
  else if (ch <=? 65535)%N then
    [92; 117; hex_at ch 12; hex_at ch 8; hex_at ch 4; hex_at ch 0]%N
  else [92; 85; hex_at ch 28; hex_at ch 24; hex_at ch 20; hex_at ch 16;
        hex_at ch 12; hex_at ch 8; hex_at ch 4; hex_at ch 0]%N.

(** Double quotes only when the string has a single quote and no double quote. *)
Definition repr_quote (s : pystr) : N :=
  if existsb (N.eqb 39) s && negb (existsb (N.eqb 34) s) then 34%N else 39%N.

Definition py_repr (s : pystr) : pystr :=
  let quote := repr_quote s in
  [quote] ++ flat_map (repr_char quote) s ++ [quote].

(** ** [dict[str, str]] and its [str] *)

(** [", ".join(parts)] *)
Fixpoint join (sep : pystr) (parts : list pystr) : pystr :=
  match parts with
  | [] => []
  | [x] => x
  | x :: rest => x ++ sep ++ join sep rest
  end.

Definition entry_str (e : entry) : pystr :=
  py_repr (fst e) ++ lit ": " ++ py_repr (snd e).

(** [str(d)] for a dict of strings: ["{'k': 'v', ...}"] *)
Definition dict_str (d : dict) : pystr :=
  lit "{" ++ join (lit ", ") (map entry_str d) ++ lit "}".

(** [len(str(d))] *)
Definition str_size (d : dict) : Z := Z.of_nat (length (dict_str d)).

(** Python dicts have pairwise distinct keys. *)
Fixpoint keys_unique (keys : list pystr) : bool :=
  match keys with
  | [] => true
  | k :: rest => negb (existsb (pystr_eqb k) rest) && keys_unique rest
  end.

Definition dict_wf (d : dict) : bool := keys_unique (map fst d).

(** [del d[k]]: removes the entry with key [k].  In the loop below the key
    is always present (theorem [enforce_checked_no_key_error]), so the [KeyError] branch
    of Python's [del] is never taken. *)
Definition dict_del (k : pystr) (d : dict) : dict :=
  filter (fun e => negb (pystr_eqb (fst e) k)) d.

(** ** [sorted(d.items(), key=lambda x: len(x[1]), reverse=True)]

    Python's sort is stable, also with [reverse=True]: the result is ordered
    by decreasing text length, entries of equal length keep their order.
    Insertion sort computes that same list. *)

Definition text_len (e : entry) : nat := length (snd e).

Fixpoint insert_desc (x : entry) (l : list entry) : list entry :=
  match l with
  | [] => [x]
  | y :: ys => if Nat.leb (text_len y) (text_len x) then x :: y :: ys
               else y :: insert_desc x ys
  end.

Fixpoint sort_desc (l : list entry) : list entry :=
  match l with
  | [] => []
  | x :: xs => insert_desc x (sort_desc xs)
  end.

(** ** [_enforce_site_data_limit]

    The [for] loop over the sorted items, run on the copy [cur] with the
    running total [total_text_length].  Besides the resulting dict it returns
    the entries deleted, in the order of the deletions. *)
Fixpoint evict_loop (limit total : Z) (items : list entry) (cur : dict)
  : dict * list entry :=
  match items with
  | [] => (cur, [])
  | (url, text) :: rest =>
      if (total <=? limit)%Z then (cur, [])
      else
        let '(r, ev) := evict_loop limit (total - Z.of_nat (length text))%Z
                          rest (dict_del url cur) in
        (r, (url, text) :: ev)
  end.

Definition enforce_trace (limit : Z) (site_data : dict) : dict * list entry :=
  let site_data_with_data_limit := site_data in (* site_data.copy() *)
  let total_text_length := str_size site_data_with_data_limit in
  if (total_text_length >? limit)%Z then
    evict_loop limit total_text_length (sort_desc site_data_with_data_limit)
      site_data_with_data_limit
  else (site_data_with_data_limit, []).

(** The function with its budget as a parameter. *)
Definition enforce_limit (limit : Z) (site_data : dict) : dict :=
  fst (enforce_trace limit site_data).

Definition MAX_TEXT_LENGTH : Z := 196000.

Definition _enforce_site_data_limit (site_data : dict) : dict :=
  enforce_limit MAX_TEXT_LENGTH site_data.

(** Weights used in the proofs about the size metric. *)
(** Weight of the entries: [len(entry_str e) + len(", ")] each. *)
Fixpoint weight (d : dict) : nat :=
  match d with
  | [] => 0
  | e :: d' => length (entry_str e) + 2 + weight d'
  end.

(** Keys not among the deleted entries. *)
Definition not_evicted (ev : list entry) (e : entry) : bool :=
  negb (existsb (pystr_eqb (fst e)) (map fst ev)).

(** Sum of the text lengths subtracted from the running total. *)
Definition evicted_text (ev : list entry) : Z :=
  Z.of_nat (list_sum (map text_len ev)).

(** Order of the sorted items: by decreasing text length. *)
Definition longer_or_equal (a b : entry) : Prop := text_len b <= text_len a.

(** Stability: entries of one text length keep their relative order. *)
Definition len_is (n : nat) (e : entry) : bool := Nat.eqb (text_len e) n.

(** ** Relational model of the loop

    [sorted(...)] is given by its documented contract instead of an
    algorithm: a permutation of the items, by decreasing [len(text)],
    entries of equal length in their original order. *)
Definition py_sorted_desc (items sorted_items : list entry) : Prop :=
  Permutation sorted_items items /\ Sorted longer_or_equal sorted_items /\
  forall n, filter (len_is n) sorted_items = filter (len_is n) items.

(** One run of the [for] loop: the running total, the items left, the copy
    before the run, the copy after it, the deleted entries. *)
Inductive evict_run (limit : Z) : Z -> list entry -> dict -> dict -> list entry -> Prop :=
| run_exhausted total cur :
    evict_run limit total [] cur cur []
| run_break total url text rest cur :
    (total <= limit)%Z ->
    evict_run limit total ((url, text) :: rest) cur cur []
| run_delete total url text rest cur r ev :
    (total > limit)%Z ->
    evict_run limit (total - Z.of_nat (length text))%Z rest (dict_del url cur) r ev ->
    evict_run limit total ((url, text) :: rest) cur r ((url, text) :: ev).

Inductive enforce_run (limit : Z) (site_data : dict) : dict -> list entry -> Prop :=
| enforce_within :
    (str_size site_data <= limit)%Z ->
    enforce_run limit site_data site_data []
| enforce_evict sorted_items r ev :
    (str_size site_data > limit)%Z ->
    py_sorted_desc site_data sorted_items ->
    evict_run limit (str_size site_data) sorted_items site_data r ev ->
    enforce_run limit site_data r ev.

(** ** Heap model: [site_data.copy()] and [del] on the copy

    The dict objects of the process; a reference is an index. *)
Definition loc := nat.

Fixpoint set_nth (h : heap) (l : loc) (d : dict) : heap :=
  match h, l with
  | [], _ => []
  | _ :: h', O => d :: h'
  | x :: h', S l' => x :: set_nth h' l' d
  end.

(** [d.copy()]: a fresh dict object with the same entries. *)
Definition heap_copy (h : heap) (d : dict) : heap * loc := (h ++ [d], length h).

(** [del h[l][k]] *)
Definition heap_del (h : heap) (l : loc) (k : pystr) : heap :=
  match nth_error h l with
  | Some d => set_nth h l (dict_del k d)
  | None => h
  end.

Fixpoint evict_loop_heap (limit total : Z) (items : list entry) (h : heap)
    (copy : loc) : heap :=
  match items with
  | [] => h
  | (url, text) :: rest =>
      if (total <=? limit)%Z then h
      else evict_loop_heap limit (total - Z.of_nat (length text))%Z rest
             (heap_del h copy url) copy
  end.

(** [_enforce_site_data_limit] run on the dict object at [site_data]; it
    returns the heap after the call and the reference it returns. *)
Definition enforce_heap (limit : Z) (h : heap) (site_data : loc)
  : option (heap * loc) :=
  match nth_error h site_data with
  | None => None
  | Some d =>
      let '(h1, copy) := heap_copy h d in
      (* the copy holds the entries [d] until the loop deletes some *)
      let total_text_length := str_size d in
      if (total_text_length >? limit)%Z then
        Some (evict_loop_heap limit total_text_length (sort_desc d) h1 copy, copy)
      else Some (h1, copy)
  end.

(** ** [del] with its [KeyError]

    [del d[k]] as Python runs it: [None] stands for the [KeyError] raised
    when [k] is not a key of [d]. *)
Definition dict_del_checked (k : pystr) (d : dict) : option dict :=
  if existsb (fun e => pystr_eqb (fst e) k) d then Some (dict_del k d) else None.

(** The loop of [_enforce_site_data_limit] with the checked [del]. *)
Fixpoint evict_loop_checked (limit total : Z) (items : list entry) (cur : dict)
  : option (dict * list entry) :=
  match items with
  | [] => Some (cur, [])
  | (url, text) :: rest =>
      if (total <=? limit)%Z then Some (cur, [])
      else
        match dict_del_checked url cur with
        | None => None
        | Some cur' =>
            match evict_loop_checked limit (total - Z.of_nat (length text))%Z
                    rest cur' with
            | None => None
            | Some (r, ev) => Some (r, (url, text) :: ev)
            end
        end
  end.

Definition enforce_trace_checked (limit : Z) (site_data : dict)
  : option (dict * list entry) :=
  let total_text_length := str_size site_data in
  if (total_text_length >? limit)%Z then
    evict_loop_checked limit total_text_length (sort_desc site_data) site_data
  else Some (site_data, []).

End Repr.

(** ** [ask_question] *)

(** Objects returned by [client.beta.chat.completions.parse]. *)
Record CompletionUsage := {
  prompt_tokens : option Z;       (* [None]: not set, absent from [to_dict()] *)
  completion_tokens : option Z
}.

Record ParsedChatCompletionMessage := {
  content : option pystr;
  refusal : option pystr
}.

Record ParsedChoice := { message : ParsedChatCompletionMessage }.

Record ParsedChatCompletion := {
  choices : list ParsedChoice;
  usage : option CompletionUsage
}.

Inductive Role := role_system | role_user.

Record ChatMessage := { role : Role; msg_content : pystr }.

(** Exceptions leaving the handler. *)
Inductive Exc :=
| HTTPException (status_code : Z) (detail : string)
| UnicodeDecodeError                  (* [.decode('utf-8')] *)
| IndexError                          (* [response.choices[0]] *)
| AttributeError                      (* [None.to_dict()] *)
| APIError.                           (* raised by the OpenAI client *)

Inductive result (A : Type) :=
| Ok (a : A)
| Err (e : Exc).
Arguments Ok {A} a.
Arguments Err {A} e.

(** The ["response"] object of the reply. *)
Record UsageInfo := { input_tokens : option Z; output_tokens : option Z }.

Record AskResponse := {
  user_question : pystr;
  answer_text : option pystr;
  usage_info : UsageInfo;
  sources : list pystr
}.

Definition question_too_long_detail : string :=
  "Question exceeds maximum length of 500 characters".

Definition refusal_detail : string :=
  "The AI refused to answer the question based on the provided data.".

(** Truth value of an [Optional[str]] in an [if]. *)
Definition py_truthy (o : option pystr) : bool :=
  match o with
  | Some (_ :: _) => true
  | _ => false
  end.

Definition newline : pystr := [10%N].

(** [f"{x}"] of an [Optional[str]]. *)
Definition py_format_opt (o : option pystr) : pystr :=
  match o with
  | Some x => x
  | None => lit "None"
  end.

Definition system_prompt : pystr :=
  lit ("You are an AI assistant trained to answer questions based on the information provided "
    ++ "from the crawled website. You should answer as accurately as possible based solely on "
    ++ "the content of the website data, without including any outside information. If the question "
    ++ "cannot be answered based on the provided data, indicate that clearly.").

Section Ask.

Variable isprintable : N -> bool.
(** [os.getenv("BASE_URL")] *)
Variable WEBSITE : option pystr.
(** [client.beta.chat.completions.parse(model="gpt-4o-mini", messages=...)];
    [None] when the client raises. *)
Variable client_parse : list ChatMessage -> option ParsedChatCompletion.
(** [bytes.decode('utf-8')]; [None] on invalid UTF-8. *)
Variable utf8_decode : list Byte.byte -> option pystr.

Definition user_prompt (site_data_for_open_ai : dict) (question : pystr) : pystr :=
  lit "I have the following site data available, which is about the website '"
  ++ py_format_opt WEBSITE ++ lit "'. "
  ++ lit "Please read through the data and answer the following question: "
  ++ newline ++ newline
  ++ lit "Website data:" ++ newline ++ newline
  ++ dict_str isprintable site_data_for_open_ai ++ newline ++ newline
  ++ lit "Question: " ++ question ++ newline
  ++ lit "Provide a clear and concise answer based on the information above.".

Definition chat_messages (site_data_for_open_ai : dict) (question : pystr)
  : list ChatMessage :=
  [ {| role := role_system; msg_content := system_prompt |};
    {| role := role_user; msg_content := user_prompt site_data_for_open_ai question |} ].

(** Lines 54-69: from the completion to the reply. *)
Definition assemble_answer (question : pystr) (site_data_for_open_ai : dict)
    (response : ParsedChatCompletion) : result AskResponse :=
  match nth_error (choices response) 0 with
  | None => Err IndexError
  | Some choice =>
      let answer := message choice in
      if py_truthy (refusal answer) then Err (HTTPException 400 refusal_detail)
      else
        match usage response with
        | None => Err AttributeError
        | Some u =>
            Ok {| user_question := question;
                  answer_text := content answer;
                  usage_info := {| input_tokens := prompt_tokens u;
                                   output_tokens := completion_tokens u |};
                  sources := map fst site_data_for_open_ai |}
        end
  end.

(** Lines 34-69: after the length check. *)
Definition answer_question (question : pystr) (site_data : dict)
  : result AskResponse :=
  let site_data_for_open_ai := _enforce_site_data_limit isprintable site_data in
  match client_parse (chat_messages site_data_for_open_ai question) with
  | None => Err APIError
  | Some response => assemble_answer question site_data_for_open_ai response
  end.

(** The handler once the body is decoded; [site_data] is [app.state.site_data]. *)
Definition ask_question_text (question : pystr) (site_data : dict)
  : result AskResponse :=
  if (Z.of_nat (length question) >? 500)%Z then
    Err (HTTPException 400 question_too_long_detail)
  else answer_question question site_data.

Definition ask_question (body : list Byte.byte) (site_data : dict)
  : result AskResponse :=
  match utf8_decode body with
  | None => Err UnicodeDecodeError
  | Some question => ask_question_text question site_data
  end.

End Ask.

(** ** Sample inputs *)

Definition all_printable (_ : N) : bool := true.

Definition sample_corpus : dict :=
  [(lit "a", lit "xxxxxxxxxx"); (lit "b", lit "yy")].

(** Two texts of equal length: ["p"] was inserted before ["q"]. *)
Definition tied_corpus : dict :=
  [(lit "p", lit "xxxx"); (lit "q", lit "yyyy"); (lit "r", lit "z")].

Definition sample_completion (refused : option pystr) : ParsedChatCompletion :=
  {| choices := [{| message := {| content := Some (lit "An answer.");
                                   refusal := refused |} |}];
     usage := Some {| prompt_tokens := Some 120%Z; completion_tokens := Some 3%Z |} |}.

Definition sample_client (_ : list ChatMessage) : option ParsedChatCompletion :=
  Some (sample_completion None).

(** * Lemmas *)

Section Lemmas.

Variable isprintable : N -> bool.
Local Abbreviation weight := (weight isprintable).

Lemma pystr_eqb_eq a b : pystr_eqb a b = true <-> a = b.
Proof.
  revert b; induction a as [|x a IH]; intros [|y b]; simpl;
    try (split; congruence).
  rewrite andb_true_iff, N.eqb_eq, IH. split; [intros [-> ->]; auto|].
  intros H; injection H; auto.
Qed.


Lemma keys_unique_NoDup keys : keys_unique keys = true <-> NoDup keys.
Proof.
  induction keys as [|k rest IH]; simpl.
  - split; auto using NoDup_nil.
  - rewrite andb_true_iff, negb_true_iff, IH, NoDup_cons_iff.
    split; intros [H1 H2]; split; auto.
    + intros Hin. assert (existsb (pystr_eqb k) rest = true) as E
        by (apply existsb_exists; exists k; split; auto; apply pystr_eqb_eq; auto).
      congruence.
    + destruct (existsb (pystr_eqb k) rest) eqn:E; auto.
      apply existsb_exists in E as [x [Hx Ex]].
      apply pystr_eqb_eq in Ex; subst; contradiction.
Qed.

Lemma Permutation_filter_bool (f : entry -> bool) l l' :
  Permutation l l' -> Permutation (filter f l) (filter f l').
Proof.
  induction 1; simpl; try constructor; auto.
  - destruct (f x); auto.
  - destruct (f x), (f y); try constructor; auto.
  - etransitivity; eauto.
Qed.

Lemma repr_char_length q ch : 1 <= length (repr_char isprintable q ch).
Proof.
  unfold repr_char.
  repeat match goal with |- context [if ?b then _ else _] => destruct b end;
    simpl; lia.
Qed.

Lemma flat_map_repr_length q s :
  length s <= length (flat_map (repr_char isprintable q) s).
Proof.
  induction s as [|ch s IH]; simpl; auto.
  rewrite length_app. pose proof (repr_char_length q ch). lia.
Qed.

Lemma py_repr_length s : length s + 2 <= length (py_repr isprintable s).
Proof.
  unfold py_repr; simpl. rewrite length_app; simpl.
  pose proof (flat_map_repr_length (repr_quote s) s). lia.
Qed.

Lemma join_length sep x parts :
  length (join sep (x :: parts)) + length sep =
  list_sum (map (fun p => length p + length sep) (x :: parts)).
Proof.
  revert x; induction parts as [|y parts IH]; intros x; simpl; [lia|].
  change (join sep (x :: y :: parts)) with (x ++ sep ++ join sep (y :: parts)).
  rewrite !length_app. specialize (IH y). simpl in IH. lia.
Qed.


Lemma weight_sum d :
  weight d = list_sum (map (fun p => length p + 2) (map (entry_str isprintable) d)).
Proof. induction d as [|e d IH]; cbn [weight map]; [reflexivity|]. rewrite IH. reflexivity. Qed.

Lemma dict_str_length d :
  length (dict_str isprintable d) = match d with [] => 2 | _ => weight d end.
Proof.
  destruct d as [|e d]; [reflexivity|].
  unfold dict_str. rewrite !length_app. cbn [map].
  pose proof (join_length (lit ", ") (entry_str isprintable e)
                (map (entry_str isprintable) d)) as H.
  change (length (lit ", ")) with 2 in H.
  change (length (lit "{")) with 1. change (length (lit "}")) with 1.
  change (entry_str isprintable e :: map (entry_str isprintable) d)
    with (map (entry_str isprintable) (e :: d)) in H |- *.
  rewrite <- weight_sum in H. lia.
Qed.

Lemma entry_str_length e : text_len e + 6 <= length (entry_str isprintable e).
Proof.
  destruct e as [k v]; unfold entry_str, text_len; cbn [fst snd].
  rewrite !length_app. change (length (lit ": ")) with 2.
  pose proof (py_repr_length k); pose proof (py_repr_length v). lia.
Qed.

Lemma weight_filter (f : entry -> bool) e d :
  In e d -> f e = false ->
  weight (filter f d) + (text_len e + 8) <= weight d.
Proof.
  induction d as [|x d IH]; cbn [In]; [tauto|]. intros [->|Hin] Hf.
  - cbn [filter]. rewrite Hf. pose proof (entry_str_length e).
    assert (weight (filter f d) <= weight d).
    { clear. induction d as [|y d IH]; cbn [filter weight]; [lia|].
      destruct (f y); cbn [weight]; lia. }
    cbn [weight]. lia.
  - specialize (IH Hin Hf). cbn [filter]. destruct (f x); cbn [weight]; lia.
Qed.

Lemma weight_pos d : d <> [] -> 8 <= weight d.
Proof.
  destruct d as [|e d]; [congruence|]. intros _.
  pose proof (entry_str_length e). cbn [weight]. lia.
Qed.

Lemma size_le_aux L W t :
  weight L + (t + 8) <= W ->
  (Z.of_nat (match L with [] => 2 | _ => weight L end) + Z.of_nat t
     <= Z.of_nat W)%Z.
Proof. destruct L; cbn [weight]; lia. Qed.

(** Deleting a present entry lowers [len(str(d))] by more than the text length. *)
Lemma str_size_del url text d :
  In (url, text) d ->
  (str_size isprintable (dict_del url d) + Z.of_nat (length text)
     <= str_size isprintable d)%Z.
Proof.
  intros Hin. unfold str_size, dict_del.
  set (f := fun e : entry => negb (pystr_eqb (fst e) url)).
  assert (f (url, text) = false) as Hf.
  { unfold f; cbn [fst]. rewrite (proj2 (pystr_eqb_eq url url) eq_refl).
    reflexivity. }
  pose proof (weight_filter f _ _ Hin Hf) as H.
  unfold text_len in H; cbn [snd] in H.
  rewrite !dict_str_length.
  destruct d as [|e0 d0]; [contradiction|].
  exact (size_le_aux _ _ _ H).
Qed.

Lemma filter_all_true (f : entry -> bool) l :
  (forall x, In x l -> f x = true) -> filter f l = l.
Proof.
  induction l as [|x l IH]; simpl; intros H; auto.
  rewrite (H x (or_introl eq_refl)), IH; auto.
Qed.

(** Deleting the head key of the remaining items keeps the copy a
    permutation of them. *)
Lemma dict_del_perm url text rest cur :
  Permutation cur ((url, text) :: rest) ->
  NoDup (map fst ((url, text) :: rest)) ->
  Permutation (dict_del url cur) rest.
Proof.
  intros HP HN. unfold dict_del.
  eapply Permutation_trans; [apply Permutation_filter_bool; exact HP|].
  simpl. rewrite (proj2 (pystr_eqb_eq url url) eq_refl); simpl.
  rewrite filter_all_true; [reflexivity|].
  intros [k v] Hin. simpl in HN. apply NoDup_cons_iff in HN as [HN _].
  apply negb_true_iff. destruct (pystr_eqb k url) eqn:E; auto.
  apply pystr_eqb_eq in E; subst. exfalso; apply HN.
  apply in_map_iff; exists (url, v); auto.
Qed.

Lemma insert_desc_perm x l : Permutation (insert_desc x l) (x :: l).
Proof.
  induction l as [|y l IH]; simpl; [reflexivity|].
  destruct (Nat.leb (text_len y) (text_len x)); [reflexivity|].
  eapply Permutation_trans; [apply perm_skip; exact IH|]. constructor.
Qed.

Lemma sort_desc_perm l : Permutation (sort_desc l) l.
Proof.
  induction l as [|x l IH]; simpl; [reflexivity|].
  eapply Permutation_trans; [apply insert_desc_perm|]. constructor; auto.
Qed.

(** Loop invariant: the copy is a permutation of the items left to visit,
    and its [len(str(...))] is at most the running total. *)
Lemma evict_loop_size limit items : forall total cur,
  Permutation cur items -> NoDup (map fst items) ->
  (str_size isprintable cur <= total)%Z ->
  let r := fst (evict_loop limit total items cur) in
  (str_size isprintable r <= limit)%Z \/ r = [].
Proof.
  induction items as [|[url text] rest IH]; intros total cur HP HN HS; simpl.
  - right. symmetry in HP. apply Permutation_nil in HP; auto.
  - destruct (Z.leb_spec total limit) as [Hle|Hgt]; simpl; [left; lia|].
    destruct (evict_loop limit (total - Z.of_nat (length text)) rest
                (dict_del url cur)) as [r ev] eqn:E.
    simpl.
    pose proof (IH (total - Z.of_nat (length text))%Z (dict_del url cur)) as IH'.
    rewrite E in IH'. apply IH'.
    + apply (dict_del_perm url text); auto.
    + simpl in HN. apply NoDup_cons_iff in HN; tauto.
    + pose proof (str_size_del url text cur) as D.
      assert (In (url, text) cur) as Hin
        by (apply (Permutation_in _ (Permutation_sym HP)); left; auto).
      specialize (D Hin). lia.
Qed.

(** The eviction log is a prefix of the visited items. *)
Lemma evict_loop_prefix limit items : forall total cur,
  let ev := snd (evict_loop limit total items cur) in
  ev = firstn (length ev) items.
Proof.
  induction items as [|[url text] rest IH]; intros total cur; simpl; auto.
  destruct (total <=? limit)%Z; simpl; auto.
  specialize (IH (total - Z.of_nat (length text))%Z (dict_del url cur)).
  destruct (evict_loop _ _ rest _) as [r ev]; simpl in *.  f_equal; auto.
Qed.


Lemma filter_filter_bool (f g : entry -> bool) l :
  filter g (filter f l) = filter (fun x => f x && g x) l.
Proof.
  induction l as [|x l IH]; simpl; auto.
  destruct (f x); simpl; rewrite ?IH; auto.
Qed.

(** The loop removes from the copy exactly the keys it logs. *)
Lemma evict_loop_result limit items : forall total cur,
  let '(r, ev) := evict_loop limit total items cur in
  r = filter (not_evicted ev) cur.
Proof.
  induction items as [|[url text] rest IH]; intros total cur; simpl.
  - unfold not_evicted; simpl. rewrite filter_true; auto.
  - destruct (total <=? limit)%Z.
    + unfold not_evicted; simpl. rewrite filter_true; auto.
    + specialize (IH (total - Z.of_nat (length text))%Z (dict_del url cur)).
      destruct (evict_loop _ _ rest _) as [r ev]. rewrite IH.
      unfold dict_del. rewrite filter_filter_bool.
      apply filter_ext. intros [k v]. unfold not_evicted; simpl.
      destruct (pystr_eqb k url) eqn:E; simpl; auto.
Qed.

(** The copy stays a permutation of the items not yet visited. *)
Lemma evict_loop_perm limit items : forall total cur,
  Permutation cur items -> NoDup (map fst items) ->
  let '(r, ev) := evict_loop limit total items cur in
  Permutation r (skipn (length ev) items).
Proof.
  induction items as [|[url text] rest IH]; intros total cur HP HN; simpl; auto.
  destruct (total <=? limit)%Z; simpl; auto.
  specialize (IH (total - Z.of_nat (length text))%Z (dict_del url cur)).
  destruct (evict_loop _ _ rest _) as [r ev]. simpl. apply IH.
  - apply (dict_del_perm url text); auto.
  - simpl in HN; apply NoDup_cons_iff in HN; tauto.
Qed.


(** Where the loop stops: the items are exhausted or the running total is
    within the limit; before each deletion the total was over it. *)
Lemma evict_loop_stop limit items : forall total cur,
  let ev := snd (evict_loop limit total items cur) in
  (length ev = length items \/ (total - evicted_text ev <= limit)%Z) /\
  (forall j, j < length ev -> (total - evicted_text (firstn j ev) > limit)%Z).
Proof.
  unfold evicted_text.
  induction items as [|[url text] rest IH]; intros total cur; simpl.
  - split; [left; auto | intros j Hj; lia].
  - destruct (Z.leb_spec total limit) as [Hle|Hgt]; simpl.
    + split; [right; lia | intros j Hj; lia].
    + specialize (IH (total - Z.of_nat (length text))%Z (dict_del url cur)).
      destruct (evict_loop _ _ rest _) as [r ev]. simpl in *.
      destruct IH as [[IH1|IH1] IH2]; split.
      * left; lia.
      * intros [|j] Hj; simpl; [lia|]. specialize (IH2 j ltac:(lia)).
        unfold text_len at 1; simpl. lia.
      * right. unfold text_len at 1; simpl. lia.
      * intros [|j] Hj; simpl; [lia|]. specialize (IH2 j ltac:(lia)).
        unfold text_len at 1; simpl. lia.
Qed.


Lemma insert_desc_sorted x l :
  Sorted longer_or_equal l -> Sorted longer_or_equal (insert_desc x l).
Proof.
  induction 1 as [|y ys Hs IH Hd]; simpl.
  - repeat constructor.
  - destruct (Nat.leb_spec (text_len y) (text_len x)) as [Hle|Hgt].
    + constructor; [constructor; auto|]. constructor. exact Hle.
    + constructor; auto.
      destruct ys as [|z zs]; simpl.
      * constructor. unfold longer_or_equal; lia.
      * inversion Hd as [|? ? Hyz]; subst.
        destruct (Nat.leb (text_len z) (text_len x)); constructor;
          unfold longer_or_equal in *; lia.
Qed.

Lemma sort_desc_sorted l : Sorted longer_or_equal (sort_desc l).
Proof.
  induction l; simpl; auto using insert_desc_sorted.
Qed.

Lemma Sorted_firstn {A} (R : A -> A -> Prop) n l :
  Sorted R l -> Sorted R (firstn n l).
Proof.
  revert n; induction l as [|x l IH]; intros [|n] H; simpl; auto.
  inversion H as [|? ? Hs Hd]; subst. constructor; auto.
  destruct l as [|y l], n; simpl; auto. inversion Hd; subst; auto.
Qed.


Lemma insert_desc_stable n x l :
  filter (len_is n) (insert_desc x l) = filter (len_is n) (x :: l).
Proof.
  induction l as [|y l IH]; simpl; auto.
  destruct (Nat.leb_spec (text_len y) (text_len x)) as [Hle|Hgt]; simpl; auto.
  rewrite IH. simpl. unfold len_is.
  destruct (Nat.eqb_spec (text_len x) n), (Nat.eqb_spec (text_len y) n);
    auto; lia.
Qed.

Lemma sort_desc_stable n l :
  filter (len_is n) (sort_desc l) = filter (len_is n) l.
Proof.
  induction l as [|x l IH]; simpl; auto.
  rewrite insert_desc_stable. simpl. rewrite IH. reflexivity.
Qed.

Lemma filter_firstn_prefix (f : entry -> bool) k l :
  let p := filter f (firstn k l) in p = firstn (length p) (filter f l).
Proof.
  revert k; induction l as [|x l IH]; intros [|k]; simpl; auto.
  destruct (f x); simpl; auto. f_equal. apply IH.
Qed.

(** ** Uniqueness of the stable sort *)

Lemma longer_or_equal_trans x y z :
  longer_or_equal x y -> longer_or_equal y z -> longer_or_equal x z.
Proof. unfold longer_or_equal; lia. Qed.

Lemma in_len_filter e l : In e l -> In e (filter (len_is (text_len e)) l).
Proof.
  intros Hin. apply filter_In. split; auto. apply Nat.eqb_refl.
Qed.

Lemma sorted_stable_unique l1 : forall l2,
  Sorted longer_or_equal l1 -> Sorted longer_or_equal l2 ->
  (forall n, filter (len_is n) l1 = filter (len_is n) l2) ->
  l1 = l2.
Proof.
  induction l1 as [|x xs IH]; intros [|y ys] H1 H2 HF; auto.
  - specialize (HF (text_len y)). cbn [filter] in HF. unfold len_is in HF.
    rewrite Nat.eqb_refl in HF. discriminate.
  - specialize (HF (text_len x)). cbn [filter] in HF. unfold len_is in HF.
    rewrite Nat.eqb_refl in HF. discriminate.
  - pose proof (Sorted_extends longer_or_equal_trans H1) as F1.
    pose proof (Sorted_extends longer_or_equal_trans H2) as F2.
    assert (text_len x = text_len y) as Exy.
    { assert (In x (y :: ys)) as Hx.
      { pose proof (in_len_filter x (x :: xs) (or_introl eq_refl)) as Hx.
        rewrite HF in Hx. apply filter_In in Hx; tauto. }
      assert (In y (x :: xs)) as Hy.
      { pose proof (in_len_filter y (y :: ys) (or_introl eq_refl)) as Hy.
        rewrite <- HF in Hy. apply filter_In in Hy; tauto. }
      destruct Hx as [->|Hx]; [reflexivity|].
      destruct Hy as [->|Hy]; [reflexivity|].
      rewrite Forall_forall in F1, F2.
      specialize (F1 y Hy). specialize (F2 x Hx).
      unfold longer_or_equal in *; lia. }
    pose proof (HF (text_len x)) as Hx. cbn [filter] in Hx.
    unfold len_is in Hx. rewrite (Nat.eqb_refl (text_len x)) in Hx.
    replace (Nat.eqb (text_len y) (text_len x)) with true in Hx
      by (rewrite Exy; symmetry; apply Nat.eqb_refl).
    injection Hx as <- Hxs. f_equal.
    apply IH.
    + inversion H1; auto.
    + inversion H2; auto.
    + intros n. specialize (HF n). cbn [filter] in HF. unfold len_is in HF.
      destruct (Nat.eqb (text_len x) n) eqn:E; auto.
      apply Nat.eqb_eq in E. subst n. exact Hxs.
Qed.

Lemma sort_desc_py_sorted l : py_sorted_desc l (sort_desc l).
Proof.
  unfold py_sorted_desc. split; [apply sort_desc_perm|]. split; [apply sort_desc_sorted|].
  intros n; apply sort_desc_stable.
Qed.

Lemma py_sorted_desc_unique l s : py_sorted_desc l s -> s = sort_desc l.
Proof.
  intros [_ [Hs Hf]]. apply sorted_stable_unique; auto using sort_desc_sorted.
  intros n. rewrite Hf, sort_desc_stable. reflexivity.
Qed.

(** ** The relational model and the function *)

Lemma evict_loop_run limit items : forall total cur,
  evict_run limit total items cur (fst (evict_loop limit total items cur))
    (snd (evict_loop limit total items cur)).
Proof.
  induction items as [|[url text] rest IH]; intros total cur; simpl.
  - constructor.
  - destruct (Z.leb_spec total limit) as [Hle|Hgt]; simpl.
    + constructor; auto.
    + specialize (IH (total - Z.of_nat (length text))%Z (dict_del url cur)).
      destruct (evict_loop _ _ rest _) as [r ev]; simpl in *.
      constructor; auto; lia.
Qed.

Lemma evict_run_loop limit total items cur r ev :
  evict_run limit total items cur r ev -> (r, ev) = evict_loop limit total items cur.
Proof.
  induction 1 as [|total url text rest cur Hle|total url text rest cur r ev Hgt _ IH];
    simpl; auto.
  - destruct (Z.leb_spec total limit); auto; lia.
  - destruct (Z.leb_spec total limit); [lia|]. rewrite <- IH. reflexivity.
Qed.

Lemma enforce_run_trace limit d r ev :
  enforce_run isprintable limit d r ev <-> (r, ev) = enforce_trace isprintable limit d.
Proof.
  unfold enforce_trace. split.
  - intros [Hle|s r' ev' Hgt Hs Hrun].
    + destruct (Z.gtb_spec (str_size isprintable d) limit); auto; lia.
    + destruct (Z.gtb_spec (str_size isprintable d) limit); [|lia].
      apply py_sorted_desc_unique in Hs; subst s. apply evict_run_loop; auto.
  - destruct (Z.gtb_spec (str_size isprintable d) limit) as [Hgt|Hle]; intros E.
    + apply (enforce_evict _ _ _ (sort_desc d)); auto using sort_desc_py_sorted; [lia|].
      pose proof (evict_loop_run limit (sort_desc d) (str_size isprintable d) d) as H.
      rewrite <- E in H. exact H.
    + injection E as -> ->. constructor. lia.
Qed.

(** ** Heap lemmas *)

Lemma nth_error_set_nth_same (h : heap) l d :
  l < length h -> nth_error (set_nth h l d) l = Some d.
Proof.
  revert l; induction h as [|x h IH]; intros [|l] Hl; simpl in *; auto; try lia.
  apply IH; lia.
Qed.

Lemma nth_error_set_nth_other (h : heap) l l' d :
  l' <> l -> nth_error (set_nth h l d) l' = nth_error h l'.
Proof.
  revert l l'; induction h as [|x h IH]; intros [|l] [|l'] Hne; simpl; auto;
    try congruence.
Qed.

Lemma evict_loop_heap_spec limit items : forall total h copy cur,
  nth_error h copy = Some cur ->
  let h' := evict_loop_heap limit total items h copy in
  nth_error h' copy = Some (fst (evict_loop limit total items cur)) /\
  forall l, l <> copy -> nth_error h' l = nth_error h l.
Proof.
  induction items as [|[url text] rest IH]; intros total h copy cur Hc; simpl.
  - auto.
  - destruct (total <=? limit)%Z; simpl; [auto|].
    assert (copy < length h) as Hlt
      by (apply nth_error_Some; congruence).
    assert (nth_error (heap_del h copy url) copy = Some (dict_del url cur)) as Hc'.
    { unfold heap_del. rewrite Hc. apply nth_error_set_nth_same; auto. }
    destruct (IH (total - Z.of_nat (length text))%Z (heap_del h copy url) copy
                (dict_del url cur) Hc') as [IH1 IH2].
    destruct (evict_loop _ _ rest _) as [r ev]; simpl in *. split; auto.
    intros l Hl. rewrite IH2; auto. unfold heap_del. rewrite Hc.
    apply nth_error_set_nth_other; auto.
Qed.

(** ** [ask_question] lemmas *)

Lemma answer_question_not_too_long WEBSITE client_parse q d :
  answer_question isprintable WEBSITE client_parse q d
    <> Err (HTTPException 400 question_too_long_detail).
Proof.
  unfold answer_question, assemble_answer.
  destruct (client_parse _) as [resp|]; [|discriminate].
  destruct (nth_error (choices resp) 0) as [c|]; [|discriminate].
  destruct (py_truthy (refusal (message c))).
  - intros E; injection E; discriminate.
  - destruct (usage resp); discriminate.
Qed.

(** ** Further lemmas on the loop *)

Lemma evict_loop_checked_ok limit items : forall total cur,
  Permutation cur items -> NoDup (map fst items) ->
  evict_loop_checked limit total items cur = Some (evict_loop limit total items cur).
Proof.
  induction items as [|[url text] rest IH]; intros total cur HP HN; simpl; auto.
  destruct (total <=? limit)%Z; auto.
  assert (In (url, text) cur) as Hin
    by (apply (Permutation_in _ (Permutation_sym HP)); left; auto).
  unfold dict_del_checked.
  replace (existsb (fun e => pystr_eqb (fst e) url) cur) with true.
  2:{ symmetry. apply existsb_exists. exists (url, text). split; auto.
      apply pystr_eqb_eq. reflexivity. }
  rewrite IH.
  - destruct (evict_loop _ _ rest _); reflexivity.
  - apply (dict_del_perm url text); auto.
  - simpl in HN; apply NoDup_cons_iff in HN; tauto.
Qed.

Lemma sorted_firstn_skipn m l a b :
  Sorted longer_or_equal l -> In a (firstn m l) -> In b (skipn m l) ->
  text_len b <= text_len a.
Proof.
  intros Hs. apply (Sorted_StronglySorted longer_or_equal_trans) in Hs.
  revert m. induction Hs as [|x l Hs IH Hf]; intros [|m]; simpl; try tauto.
  intros [->|Ha] Hb.
  - rewrite Forall_forall in Hf. apply Hf.
    rewrite <- (firstn_skipn m l). apply in_or_app. right; exact Hb.
  - exact (IH m Ha Hb).
Qed.

Lemma evict_loop_len_mono limit1 limit2 items : forall total cur,
  (limit1 <= limit2)%Z ->
  length (snd (evict_loop limit2 total items cur))
    <= length (snd (evict_loop limit1 total items cur)).
Proof.
  induction items as [|[url text] rest IH]; intros total cur Hle; simpl; auto.
  destruct (Z.leb_spec total limit2); simpl; [lia|].
  destruct (Z.leb_spec total limit1); [lia|].
  specialize (IH (total - Z.of_nat (length text))%Z (dict_del url cur) Hle).
  destruct (evict_loop limit2 _ rest _), (evict_loop limit1 _ rest _).
  simpl in *. lia.
Qed.

Lemma evict_loop_size_bound limit items : forall total cur,
  Permutation cur items -> NoDup (map fst items) ->
  (str_size isprintable cur <= total)%Z ->
  let '(r, ev) := evict_loop limit total items cur in
  (str_size isprintable r <= total - evicted_text ev)%Z.
Proof.
  unfold evicted_text.
  induction items as [|[url text] rest IH]; intros total cur HP HN HS; simpl.
  - lia.
  - destruct (total <=? limit)%Z; simpl; [lia|].
    pose proof (IH (total - Z.of_nat (length text))%Z (dict_del url cur)) as IH'.
    destruct (evict_loop _ _ rest _) as [r ev]. simpl.
    assert (In (url, text) cur) as Hin
      by (apply (Permutation_in _ (Permutation_sym HP)); left; auto).
    pose proof (str_size_del url text cur Hin) as D.
    assert (Z.of_nat (list_sum (map text_len ev)) <=
            total - Z.of_nat (length text) - str_size isprintable r)%Z.
    { apply Z.le_add_le_sub_r. rewrite Z.add_comm. apply Z.le_add_le_sub_r.
      apply IH'.
      - apply (dict_del_perm url text); auto.
      - simpl in HN. apply NoDup_cons_iff in HN; tauto.
      - lia. }
    unfold text_len at 1; simpl. lia.
Qed.

Lemma sort_desc_NoDup d :
  dict_wf d = true -> NoDup (map fst (sort_desc d)).
Proof.
  intros Hwf.
  apply (Permutation_NoDup (Permutation_map fst (Permutation_sym (sort_desc_perm _)))).
  apply keys_unique_NoDup; exact Hwf.
Qed.

Lemma enforce_trace_nil limit : enforce_trace isprintable limit [] = ([], []).
Proof.
  unfold enforce_trace. destruct (str_size isprintable [] >? limit)%Z; reflexivity.
Qed.

Lemma NoDup_map_fst_filter (f : entry -> bool) d :
  NoDup (map fst d) -> NoDup (map fst (filter f d)).
Proof.
  induction d as [|x d IH]; simpl; auto. intros HN.
  apply NoDup_cons_iff in HN as [Hx HN].
  destruct (f x); simpl; auto. constructor; auto.
  intros Hin. apply Hx. apply in_map_iff in Hin as [y [<- Hy]].
  apply filter_In in Hy. apply in_map; tauto.
Qed.

Lemma length_set_nth (h : heap) l d : length (set_nth h l d) = length h.
Proof.
  revert l; induction h as [|x h IH]; intros [|l]; simpl; auto.
Qed.

Lemma evict_loop_heap_length limit items : forall total h copy,
  length (evict_loop_heap limit total items h copy) = length h.
Proof.
  induction items as [|[url text] rest IH]; intros total h copy; simpl; auto.
  destruct (total <=? limit)%Z; auto. rewrite IH. unfold heap_del.
  destruct (nth_error h copy); auto using length_set_nth.
Qed.

Lemma enforce_heap_spec limit h site_data d :
  nth_error h site_data = Some d ->
  exists h',
    enforce_heap isprintable limit h site_data = Some (h', length h) /\
    length h' = S (length h) /\
    nth_error h' (length h) = Some (enforce_limit isprintable limit d) /\
    forall l, l <> length h -> nth_error h' l = nth_error h l.
Proof.
  intros Hd.
  assert (nth_error (h ++ [d]) (length h) = Some d) as Hc
    by (rewrite nth_error_app2, Nat.sub_diag; auto).
  assert (forall l, l <> length h -> nth_error (h ++ [d]) l = nth_error h l) as Ho.
  { intros l Hl. destruct (Nat.lt_ge_cases l (length h)).
    - apply nth_error_app1; auto.
    - rewrite (proj2 (nth_error_None (h ++ [d]) l)), (proj2 (nth_error_None h l));
        auto; rewrite ?length_app; simpl; lia. }
  unfold enforce_heap, enforce_limit, enforce_trace, heap_copy. rewrite Hd.
  destruct (Z.gtb_spec (str_size isprintable d) limit).
  - destruct (evict_loop_heap_spec limit (sort_desc d) (str_size isprintable d)
                (h ++ [d]) (length h) d Hc) as [H1 H2].
    eexists. split; [reflexivity|].
    rewrite evict_loop_heap_length, length_app. simpl.
    split; [lia|]. split; [exact H1|].
    intros l Hl. rewrite H2, Ho; auto.
  - eexists. split; [reflexivity|]. rewrite length_app; simpl.
    split; [lia|]. split; [exact Hc | exact Ho].
Qed.

Lemma ask_success_sources WEBSITE client_parse question site_data res :
  ask_question_text isprintable WEBSITE client_parse question site_data = Ok res ->
  sources res = map fst (_enforce_site_data_limit isprintable site_data).
Proof.
  unfold ask_question_text, answer_question, assemble_answer.
  destruct (Z.of_nat (length question) >? 500)%Z; [discriminate|].
  destruct (client_parse _) as [response|]; [|discriminate].
  destruct (nth_error (choices response) 0) as [c|]; [|discriminate].
  destruct (py_truthy (refusal (message c))); [discriminate|].
  destruct (usage response); [|discriminate].
  intros H; injection H as <-. reflexivity.
Qed.

End Lemmas.

(** * Checks on concrete inputs *)

Example repr_plain : py_repr all_printable (lit "ab") = lit "'ab'".
Proof. reflexivity. Qed.

Example repr_single_quote :
  py_repr all_printable (lit "a'b") = [34%N] ++ lit "a'b" ++ [34%N].
Proof. reflexivity. Qed.

Example dict_str_sample :
  dict_str all_printable sample_corpus = lit "{'a': 'xxxxxxxxxx', 'b': 'yy'}".
Proof. reflexivity. Qed.

(** The scenario of the spec: [{"a": "x"*100, "b": "y"*50}], budget 120. *)
Example enforce_spec_scenario :
  enforce_limit all_printable 120
    [(lit "a", repeat 120%N 100); (lit "b", repeat 121%N 50)]
  = [(lit "b", repeat 121%N 50)].
Proof. vm_compute. reflexivity. Qed.

Example enforce_tied_trace :
  enforce_trace all_printable 28 tied_corpus
  = ([(lit "r", lit "z")], [(lit "p", lit "xxxx"); (lit "q", lit "yyyy")]).
Proof. vm_compute. reflexivity. Qed.

(** * Claims *)

(** C1: when [len(str(site_data))] exceeds the budget, the returned dict has
    [len(str(...))] at most the budget, or it is empty. *)
Theorem enforce_within_budget_or_empty isprintable limit site_data :
  dict_wf site_data = true ->
  (str_size isprintable site_data > limit)%Z ->
  let r := enforce_limit isprintable limit site_data in
  (str_size isprintable r <= limit)%Z \/ r = [].
Proof.
  intros Hwf Hgt. unfold enforce_limit, enforce_trace.
  destruct (Z.gtb_spec (str_size isprintable site_data) limit) as [_|]; [|lia].
  apply evict_loop_size.
  - apply Permutation_sym, sort_desc_perm.
  - apply (Permutation_NoDup (Permutation_map fst (Permutation_sym (sort_desc_perm _)))).
    apply keys_unique_NoDup; exact Hwf.
  - lia.
Qed.

Lemma enforce_within_budget_or_empty_witness :
  dict_wf sample_corpus = true /\ (str_size all_printable sample_corpus > 25)%Z /\
  ((str_size all_printable (enforce_limit all_printable 25 sample_corpus) <= 25)%Z
   \/ enforce_limit all_printable 25 sample_corpus = []).
Proof.
  split; [reflexivity|]. split; [vm_compute; reflexivity|].
  apply enforce_within_budget_or_empty; [reflexivity | vm_compute; reflexivity].
Defined.

(** C2: when [len(str(site_data))] is within the budget, the returned dict is
    the input, and nothing is deleted. *)
Theorem enforce_under_budget_unchanged isprintable limit site_data :
  (str_size isprintable site_data <= limit)%Z ->
  enforce_limit isprintable limit site_data = site_data /\
  snd (enforce_trace isprintable limit site_data) = [].
Proof.
  intros Hle. unfold enforce_limit, enforce_trace.
  destruct (Z.gtb_spec (str_size isprintable site_data) limit); [lia|]. auto.
Qed.

Lemma enforce_under_budget_unchanged_witness :
  (str_size all_printable sample_corpus <= 30)%Z /\
  enforce_limit all_printable 30 sample_corpus = sample_corpus /\
  snd (enforce_trace all_printable 30 sample_corpus) = [].
Proof.
  split; [vm_compute; discriminate|].
  apply enforce_under_budget_unchanged. vm_compute. discriminate.
Defined.

(** C3: the deleted entries are a prefix of the items sorted by decreasing
    text length, hence in non-increasing order of text length; each deletion
    removes one whole entry; the loop stops once the running total is within
    the budget or the items are exhausted, and before each deletion the
    running total was over the budget. *)
Theorem enforce_evicts_longest_first isprintable limit site_data :
  dict_wf site_data = true ->
  let '(r, ev) := enforce_trace isprintable limit site_data in
  ev = firstn (length ev) (sort_desc site_data) /\
  Sorted longer_or_equal ev /\
  r = filter (not_evicted ev) site_data /\
  length r + length ev = length site_data /\
  (length ev = length site_data \/
   (str_size isprintable site_data - evicted_text ev <= limit)%Z) /\
  (forall j, j < length ev ->
     (str_size isprintable site_data - evicted_text (firstn j ev) > limit)%Z).
Proof.
  intros Hwf. unfold enforce_trace.
  destruct (Z.gtb_spec (str_size isprintable site_data) limit) as [Hgt|Hle].
  - set (total := str_size isprintable site_data).
    pose proof (evict_loop_prefix limit (sort_desc site_data) total site_data) as P.
    pose proof (evict_loop_result limit (sort_desc site_data) total site_data) as R.
    pose proof (evict_loop_perm limit (sort_desc site_data) total site_data) as Pm.
    pose proof (evict_loop_stop limit (sort_desc site_data) total site_data) as St.
    assert (NoDup (map fst (sort_desc site_data))) as HN.
    { apply (Permutation_NoDup
               (Permutation_map fst (Permutation_sym (sort_desc_perm _)))).
      apply keys_unique_NoDup; exact Hwf. }
    pose proof (Permutation_length (sort_desc_perm site_data)) as Hlen.
    specialize (Pm (Permutation_sym (sort_desc_perm _)) HN).
    destruct (evict_loop limit total (sort_desc site_data) site_data) as [r ev].
    simpl in P, St.
    assert (length ev <= length site_data) as Hle.
    { rewrite P, length_firstn. lia. }
    apply Permutation_length in Pm. rewrite length_skipn in Pm.
    repeat split; auto.
    + rewrite P. apply Sorted_firstn, sort_desc_sorted.
    + lia.
    + destruct St as [[St|St] _]; [left; lia | right; exact St].
    + apply St.
  - repeat split; auto;
      try (unfold not_evicted; simpl; rewrite filter_true; reflexivity);
      try (simpl; lia);
      try (right; unfold evicted_text; simpl; lia);
      try (intros j Hj; simpl in Hj; lia).
Qed.

Lemma enforce_evicts_longest_first_witness :
  dict_wf tied_corpus = true /\
  (let '(r, ev) := enforce_trace all_printable 28 tied_corpus in
   ev = firstn (length ev) (sort_desc tied_corpus) /\
   Sorted longer_or_equal ev /\
   r = filter (not_evicted ev) tied_corpus /\
   length r + length ev = length tied_corpus /\
   (length ev = length tied_corpus \/
    (str_size all_printable tied_corpus - evicted_text ev <= 28)%Z) /\
   (forall j, j < length ev ->
      (str_size all_printable tied_corpus - evicted_text (firstn j ev) > 28)%Z)).
Proof.
  split; [reflexivity|]. apply enforce_evicts_longest_first. reflexivity.
Defined.

(** C4: two runs of the loop on the same dict and budget, with [sorted] given
    by its documented contract, delete the same entries in the same order and
    return the same dict. *)
Theorem enforce_deterministic isprintable limit site_data r1 ev1 r2 ev2 :
  enforce_run isprintable limit site_data r1 ev1 ->
  enforce_run isprintable limit site_data r2 ev2 ->
  r1 = r2 /\ ev1 = ev2.
Proof.
  intros H1 H2. apply enforce_run_trace in H1, H2.
  rewrite <- H2 in H1. injection H1 as -> ->. auto.
Qed.

Lemma enforce_deterministic_witness :
  enforce_run all_printable 28 tied_corpus
    [(lit "r", lit "z")] [(lit "p", lit "xxxx"); (lit "q", lit "yyyy")] /\
  [(lit "r", lit "z")] = [(lit "r", lit "z")] /\
  [(lit "p", lit "xxxx"); (lit "q", lit "yyyy")]
    = [(lit "p", lit "xxxx"); (lit "q", lit "yyyy")].
Proof.
  assert (enforce_run all_printable 28 tied_corpus
            [(lit "r", lit "z")] [(lit "p", lit "xxxx"); (lit "q", lit "yyyy")]) as H
    by (apply enforce_run_trace; vm_compute; reflexivity).
  split; [exact H|]. apply (enforce_deterministic all_printable 28 tied_corpus _ _ _ _ H H).
Defined.

(** C5: on a successful answer, [sources] is the list of the keys of the
    trimmed dict, in its order; the trimmed dict is the one whose [str] the
    client was sent. *)
Theorem ask_sources_are_trimmed_keys isprintable WEBSITE client_parse question
    site_data res :
  ask_question_text isprintable WEBSITE client_parse question site_data = Ok res ->
  let trimmed := _enforce_site_data_limit isprintable site_data in
  (exists response,
     client_parse (chat_messages isprintable WEBSITE trimmed question) = Some response) /\
  sources res = map fst trimmed.
Proof.
  unfold ask_question_text, answer_question.
  destruct (Z.of_nat (length question) >? 500)%Z; [discriminate|].
  destruct (client_parse _) as [response|] eqn:E; [|discriminate].
  intros H. split; [exists response; reflexivity|].
  revert H. unfold assemble_answer.
  destruct (nth_error (choices response) 0) as [c|]; [|discriminate].
  destruct (py_truthy (refusal (message c))); [discriminate|].
  destruct (usage response); [|discriminate].
  intros H; injection H as <-. reflexivity.
Qed.

Lemma ask_sources_are_trimmed_keys_witness :
  exists res,
    ask_question_text all_printable None sample_client (lit "Who?") sample_corpus
      = Ok res /\
    (exists response,
       sample_client (chat_messages all_printable None
         (_enforce_site_data_limit all_printable sample_corpus) (lit "Who?"))
       = Some response) /\
    sources res = map fst (_enforce_site_data_limit all_printable sample_corpus).
Proof.
  eexists. split; [vm_compute; reflexivity|].
  apply (ask_sources_are_trimmed_keys all_printable None sample_client).
  vm_compute. reflexivity.
Defined.

(** C6: given the first choice of the completion, the answer step raises the
    refusal [HTTPException(400)] exactly when the message's [refusal] is
    truthy, and then returns no answer. *)
Theorem assemble_refusal_iff question site_data_for_open_ai response choice rest :
  choices response = choice :: rest ->
  (assemble_answer question site_data_for_open_ai response
     = Err (HTTPException 400 refusal_detail)
   <-> py_truthy (refusal (message choice)) = true) /\
  (py_truthy (refusal (message choice)) = true ->
   forall a, assemble_answer question site_data_for_open_ai response <> Ok a).
Proof.
  intros Hc. unfold assemble_answer. rewrite Hc. simpl.
  destruct (py_truthy (refusal (message choice))).
  - split; [split; auto|]. intros _ a; discriminate.
  - split; [|discriminate]. split; [|discriminate].
    destruct (usage response); discriminate.
Qed.

Lemma assemble_refusal_iff_witness :
  choices (sample_completion (Some (lit "I cannot answer that.")))
    = [{| message := {| content := Some (lit "An answer.");
                         refusal := Some (lit "I cannot answer that.") |} |}] /\
  ((assemble_answer (lit "Who?") sample_corpus
      (sample_completion (Some (lit "I cannot answer that.")))
      = Err (HTTPException 400 refusal_detail)
    <-> py_truthy (Some (lit "I cannot answer that.")) = true) /\
   (py_truthy (Some (lit "I cannot answer that.")) = true ->
    forall a, assemble_answer (lit "Who?") sample_corpus
                (sample_completion (Some (lit "I cannot answer that."))) <> Ok a)).
Proof.
  split; [reflexivity|].
  exact (assemble_refusal_iff (lit "Who?") sample_corpus
           (sample_completion (Some (lit "I cannot answer that."))) _ [] eq_refl).
Defined.

(** C7: the length check raises [HTTPException(400)] with the "too long"
    detail exactly for questions of more than 500 characters; a question of
    500 characters goes on to the rest of the handler, one of 501 is
    rejected. *)
Theorem ask_question_length_check isprintable WEBSITE client_parse :
  (forall question site_data,
     ask_question_text isprintable WEBSITE client_parse question site_data
       = Err (HTTPException 400 question_too_long_detail)
     <-> 500 < length question) /\
  (forall question site_data, length question = 500 ->
     ask_question_text isprintable WEBSITE client_parse question site_data
       = answer_question isprintable WEBSITE client_parse question site_data) /\
  (forall question site_data, length question = 501 ->
     ask_question_text isprintable WEBSITE client_parse question site_data
       = Err (HTTPException 400 question_too_long_detail)).
Proof.
  unfold ask_question_text. split; [|split].
  - intros question site_data.
    destruct (Z.gtb_spec (Z.of_nat (length question)) 500) as [Hgt|Hle].
    + split; auto; lia.
    + split; [|lia]. intros H. exfalso.
      exact (answer_question_not_too_long isprintable WEBSITE client_parse _ _ H).
  - intros question site_data Hl.
    destruct (Z.gtb_spec (Z.of_nat (length question)) 500); auto; lia.
  - intros question site_data Hl.
    destruct (Z.gtb_spec (Z.of_nat (length question)) 500); auto; lia.
Qed.

Lemma ask_question_length_check_witness :
  ask_question_text all_printable None sample_client (repeat 97%N 500) sample_corpus
    = answer_question all_printable None sample_client (repeat 97%N 500) sample_corpus /\
  ask_question_text all_printable None sample_client (repeat 97%N 501) sample_corpus
    = Err (HTTPException 400 question_too_long_detail).
Proof.
  destruct (ask_question_length_check all_printable None sample_client) as [_ [H500 H501]].
  split; [apply H500 | apply H501]; apply repeat_length.
Defined.

(** C8: the call copies the input dict into a fresh object and deletes only
    from the copy: the input object keeps its entries, every other object is
    untouched, and the copy holds the result. *)
Theorem enforce_heap_input_unchanged isprintable limit h site_data d :
  nth_error h site_data = Some d ->
  exists h',
    enforce_heap isprintable limit h site_data = Some (h', length h) /\
    nth_error h' site_data = Some d /\
    nth_error h' (length h) = Some (enforce_limit isprintable limit d) /\
    forall l, l <> length h -> nth_error h' l = nth_error h l.
Proof.
  intros Hd. assert (site_data < length h) as Hlt
    by (apply nth_error_Some; congruence).
  assert (nth_error (h ++ [d]) (length h) = Some d) as Hc
    by (rewrite nth_error_app2, Nat.sub_diag; auto).
  assert (forall l, l <> length h -> nth_error (h ++ [d]) l = nth_error h l) as Ho.
  { intros l Hl. destruct (Nat.lt_ge_cases l (length h)).
    - apply nth_error_app1; auto.
    - rewrite (proj2 (nth_error_None (h ++ [d]) l)), (proj2 (nth_error_None h l));
        auto; rewrite ?length_app; simpl; lia. }
  unfold enforce_heap, enforce_limit, enforce_trace, heap_copy. rewrite Hd.
  destruct (Z.gtb_spec (str_size isprintable d) limit).
  - destruct (evict_loop_heap_spec limit (sort_desc d) (str_size isprintable d)
                (h ++ [d]) (length h) d Hc) as [H1 H2].
    eexists. split; [reflexivity|]. split; [|split; [exact H1|]].
    + rewrite H2 by lia. rewrite Ho by lia. exact Hd.
    + intros l Hl. rewrite H2, Ho; auto.
  - eexists. split; [reflexivity|]. split; [rewrite Ho by lia; exact Hd|].
    split; [exact Hc | exact Ho].
Qed.

Lemma enforce_heap_input_unchanged_witness :
  nth_error [tied_corpus; sample_corpus] 1 = Some sample_corpus /\
  exists h',
    enforce_heap all_printable 25 [tied_corpus; sample_corpus] 1 = Some (h', 2) /\
    nth_error h' 1 = Some sample_corpus /\
    nth_error h' 2 = Some (enforce_limit all_printable 25 sample_corpus) /\
    forall l, l <> 2 -> nth_error h' l = nth_error [tied_corpus; sample_corpus] l.
Proof.
  split; [reflexivity|].
  exact (enforce_heap_input_unchanged all_printable 25 [tied_corpus; sample_corpus]
           1 sample_corpus eq_refl).
Defined.

(** C9: among the deleted entries of one text length, the order is the
    insertion order of the input dict, and they are the first inserted
    entries of that length. *)
Theorem enforce_ties_insertion_order isprintable limit site_data n :
  let ev := snd (enforce_trace isprintable limit site_data) in
  let tied := filter (len_is n) ev in
  tied = firstn (length tied) (filter (len_is n) site_data).
Proof.
  assert (forall k,
    let p := filter (len_is n) (firstn k (sort_desc site_data)) in
    p = firstn (length p) (filter (len_is n) site_data)) as A.
  { intros k. simpl. rewrite <- (sort_desc_stable n site_data).
    apply filter_firstn_prefix. }
  unfold enforce_trace.
  destruct (Z.gtb_spec (str_size isprintable site_data) limit).
  - pose proof (evict_loop_prefix limit (sort_desc site_data)
                  (str_size isprintable site_data) site_data) as P.
    simpl in P |- *. rewrite P. apply A.
  - reflexivity.
Qed.

(** C10: the empty question passes the length check and runs the rest of
    the handler. *)
Theorem ask_empty_question_proceeds isprintable WEBSITE client_parse site_data :
  ask_question_text isprintable WEBSITE client_parse [] site_data
    = answer_question isprintable WEBSITE client_parse [] site_data /\
  ask_question_text isprintable WEBSITE client_parse [] site_data
    <> Err (HTTPException 400 question_too_long_detail).
Proof.
  unfold ask_question_text. simpl. split; [reflexivity|].
  apply answer_question_not_too_long.
Qed.

(** * Further properties of [_enforce_site_data_limit] and [ask_question] *)

Lemma enforce_trace_filter isprintable limit d :
  fst (enforce_trace isprintable limit d)
  = filter (not_evicted (snd (enforce_trace isprintable limit d))) d.
Proof.
  unfold enforce_trace. destruct (str_size isprintable d >? limit)%Z.
  - pose proof (evict_loop_result limit (sort_desc d) (str_size isprintable d) d) as R.
    destruct (evict_loop _ _ _ _) as [r ev]. exact R.
  - unfold not_evicted; simpl. rewrite filter_true. reflexivity.
Qed.

Lemma weight_formula isprintable d :
  weight isprintable d =
  list_sum (map (fun e => length (py_repr isprintable (fst e))
                          + length (py_repr isprintable (snd e)) + 4) d).
Proof.
  induction d as [|e d IH]; [reflexivity|]. cbn [weight map]. rewrite IH.
  unfold entry_str. rewrite !length_app. change (length (lit ": ")) with 2.
  change (list_sum (?a :: ?l)) with (a + list_sum l). lia.
Qed.

Lemma enforce_limit_idem isprintable limit site_data :
  dict_wf site_data = true ->
  enforce_limit isprintable limit (enforce_limit isprintable limit site_data)
  = enforce_limit isprintable limit site_data.
Proof.
  intros Hwf.
  assert ((str_size isprintable (enforce_limit isprintable limit site_data) <= limit)%Z
          \/ enforce_limit isprintable limit site_data = []) as [Hs|He].
  { unfold enforce_limit, enforce_trace.
    destruct (Z.gtb_spec (str_size isprintable site_data) limit); [|left; simpl; lia].
    apply evict_loop_size.
    - apply Permutation_sym, sort_desc_perm.
    - apply sort_desc_NoDup; exact Hwf.
    - lia. }
  - unfold enforce_limit at 1, enforce_trace at 1.
    destruct (Z.gtb_spec (str_size isprintable (enforce_limit isprintable limit site_data))
                limit); [lia|]. reflexivity.
  - rewrite He. unfold enforce_limit. rewrite enforce_trace_nil. reflexivity.
Qed.

(** X1: with unique keys, no [del] of the loop raises [KeyError]: the run
    with Python's checked [del] gives the same result and deletions. *)
Theorem enforce_checked_no_key_error isprintable limit site_data :
  dict_wf site_data = true ->
  enforce_trace_checked isprintable limit site_data
  = Some (enforce_trace isprintable limit site_data).
Proof.
  intros Hwf. unfold enforce_trace_checked, enforce_trace.
  destruct (str_size isprintable site_data >? limit)%Z; auto.
  apply evict_loop_checked_ok.
  - apply Permutation_sym, sort_desc_perm.
  - apply sort_desc_NoDup; exact Hwf.
Qed.

Lemma enforce_checked_no_key_error_witness :
  dict_wf tied_corpus = true /\
  enforce_trace_checked all_printable 28 tied_corpus
  = Some (enforce_trace all_printable 28 tied_corpus).
Proof.
  split; [reflexivity|]. apply enforce_checked_no_key_error. reflexivity.
Defined.

(** X2: every entry kept has a text no longer than any deleted entry's. *)
Theorem enforce_keeps_shorter_texts isprintable limit site_data :
  dict_wf site_data = true ->
  let '(r, ev) := enforce_trace isprintable limit site_data in
  forall a b, In a ev -> In b r -> text_len b <= text_len a.
Proof.
  intros Hwf. unfold enforce_trace.
  destruct (str_size isprintable site_data >? limit)%Z; [|simpl; tauto].
  set (total := str_size isprintable site_data).
  pose proof (evict_loop_prefix limit (sort_desc site_data) total site_data) as P.
  pose proof (evict_loop_perm limit (sort_desc site_data) total site_data
                (Permutation_sym (sort_desc_perm _)) (sort_desc_NoDup _ Hwf)) as Pm.
  destruct (evict_loop limit total (sort_desc site_data) site_data) as [r ev].
  simpl in P. intros a b Ha Hb.
  apply (sorted_firstn_skipn (length ev) (sort_desc site_data));
    auto using sort_desc_sorted.
  - rewrite <- P. exact Ha.
  - exact (Permutation_in _ Pm Hb).
Qed.

Lemma enforce_keeps_shorter_texts_witness :
  dict_wf tied_corpus = true /\
  (let '(r, ev) := enforce_trace all_printable 28 tied_corpus in
   forall a b, In a ev -> In b r -> text_len b <= text_len a).
Proof.
  split; [reflexivity|]. apply enforce_keeps_shorter_texts. reflexivity.
Defined.

(** X3: a larger budget deletes a prefix of what a smaller one deletes, and
    keeps every entry the smaller one keeps. *)
Theorem enforce_budget_monotone isprintable limit1 limit2 site_data :
  (limit1 <= limit2)%Z ->
  let '(r1, ev1) := enforce_trace isprintable limit1 site_data in
  let '(r2, ev2) := enforce_trace isprintable limit2 site_data in
  ev2 = firstn (length ev2) ev1 /\ incl r1 r2.
Proof.
  intros Hle.
  pose proof (enforce_trace_filter isprintable limit1 site_data) as F1.
  pose proof (enforce_trace_filter isprintable limit2 site_data) as F2.
  assert (snd (enforce_trace isprintable limit2 site_data)
          = firstn (length (snd (enforce_trace isprintable limit2 site_data)))
              (snd (enforce_trace isprintable limit1 site_data))) as Hpre.
  { unfold enforce_trace.
    destruct (Z.gtb_spec (str_size isprintable site_data) limit2); [|reflexivity].
    destruct (Z.gtb_spec (str_size isprintable site_data) limit1); [|lia].
    set (total := str_size isprintable site_data).
    pose proof (evict_loop_prefix limit1 (sort_desc site_data) total site_data) as P1.
    pose proof (evict_loop_prefix limit2 (sort_desc site_data) total site_data) as P2.
    pose proof (evict_loop_len_mono limit1 limit2 (sort_desc site_data) total
                  site_data Hle) as M.
    simpl in P1, P2.
    destruct (evict_loop limit1 total _ _) as [r1 ev1],
             (evict_loop limit2 total _ _) as [r2 ev2]. simpl in *.
    rewrite P1, firstn_firstn. rewrite P2 at 1. f_equal. lia. }
  destruct (enforce_trace isprintable limit1 site_data) as [r1 ev1],
           (enforce_trace isprintable limit2 site_data) as [r2 ev2].
  simpl in *. split; [exact Hpre|].
  rewrite F1, F2. intros e He. apply filter_In in He as [Hin Hn].
  apply filter_In. split; auto. unfold not_evicted in *.
  apply negb_true_iff in Hn. apply negb_true_iff.
  destruct (existsb (pystr_eqb (fst e)) (map fst ev2)) eqn:E; auto.
  apply existsb_exists in E as [k [Hk Ek]].
  rewrite <- Hn. symmetry. apply existsb_exists. exists k. split; auto.
  rewrite Hpre in Hk. apply in_map_iff in Hk as [x [<- Hx]].
  apply in_map. rewrite <- (firstn_skipn (length ev2) ev1).
  apply in_or_app. left; exact Hx.
Qed.

Lemma enforce_budget_monotone_witness :
  (28 <= 31)%Z /\
  (let '(r1, ev1) := enforce_trace all_printable 28 tied_corpus in
   let '(r2, ev2) := enforce_trace all_printable 31 tied_corpus in
   ev2 = firstn (length ev2) ev1 /\ incl r1 r2).
Proof.
  split; [lia|]. apply enforce_budget_monotone. lia.
Defined.

(** X4: enforcing the budget a second time changes nothing. *)
Theorem enforce_idempotent isprintable limit site_data :
  dict_wf site_data = true ->
  enforce_limit isprintable limit (enforce_limit isprintable limit site_data)
  = enforce_limit isprintable limit site_data.
Proof. exact (enforce_limit_idem isprintable limit site_data). Qed.

Lemma enforce_idempotent_witness :
  dict_wf tied_corpus = true /\
  enforce_limit all_printable 5 (enforce_limit all_printable 5 tied_corpus)
  = enforce_limit all_printable 5 tied_corpus.
Proof.
  split; [reflexivity|]. apply enforce_idempotent. reflexivity.
Defined.

(** X5: the running total never underestimates [len(str(...))] of the
    copy: the returned dict's size plus the deleted text lengths is at most
    the input's size. *)
Theorem enforce_size_drift isprintable limit site_data :
  dict_wf site_data = true ->
  let '(r, ev) := enforce_trace isprintable limit site_data in
  (str_size isprintable r + evicted_text ev <= str_size isprintable site_data)%Z.
Proof.
  intros Hwf. unfold enforce_trace.
  destruct (str_size isprintable site_data >? limit)%Z.
  - pose proof (evict_loop_size_bound isprintable limit (sort_desc site_data)
                  (str_size isprintable site_data) site_data
                  (Permutation_sym (sort_desc_perm _)) (sort_desc_NoDup _ Hwf)
                  (Z.le_refl _)) as B.
    destruct (evict_loop _ _ _ _) as [r ev]. lia.
  - unfold evicted_text; simpl. lia.
Qed.

Lemma enforce_size_drift_witness :
  dict_wf tied_corpus = true /\
  (let '(r, ev) := enforce_trace all_printable 28 tied_corpus in
   (str_size all_printable r + evicted_text ev <= str_size all_printable tied_corpus)%Z).
Proof.
  split; [reflexivity|]. apply enforce_size_drift. reflexivity.
Defined.

(** X6: [len(str(d))] is 2 for the empty dict, otherwise the sum over the
    entries of [len(repr(key)) + len(repr(value)) + 4]. *)
Theorem str_size_formula isprintable d :
  str_size isprintable d =
  match d with
  | [] => 2%Z
  | _ => Z.of_nat (list_sum (map (fun e => length (py_repr isprintable (fst e))
                                          + length (py_repr isprintable (snd e)) + 4) d))
  end.
Proof.
  unfold str_size. rewrite dict_str_length.
  destruct d as [|e d]; [reflexivity|]. rewrite weight_formula. reflexivity.
Qed.

(** X7: on success, [sources] is the input's keys in insertion order with
    the deleted ones left out, without duplicates. *)
Theorem ask_sources_input_order isprintable WEBSITE client_parse question site_data res :
  dict_wf site_data = true ->
  ask_question_text isprintable WEBSITE client_parse question site_data = Ok res ->
  sources res = map fst (filter (not_evicted
                  (snd (enforce_trace isprintable MAX_TEXT_LENGTH site_data))) site_data) /\
  NoDup (sources res).
Proof.
  intros Hwf H. apply ask_success_sources in H.
  unfold _enforce_site_data_limit, enforce_limit in H.
  rewrite enforce_trace_filter in H. split; auto.
  rewrite H. apply NoDup_map_fst_filter, keys_unique_NoDup; exact Hwf.
Qed.

Lemma ask_sources_input_order_witness :
  exists res,
    dict_wf sample_corpus = true /\
    ask_question_text all_printable None sample_client (lit "Who?") sample_corpus
      = Ok res /\
    sources res = map fst (filter (not_evicted
      (snd (enforce_trace all_printable MAX_TEXT_LENGTH sample_corpus))) sample_corpus) /\
    NoDup (sources res).
Proof.
  eexists. split; [reflexivity|]. split; [vm_compute; reflexivity|].
  apply (ask_sources_input_order all_printable None sample_client (lit "Who?"));
    [reflexivity|].
  vm_compute. reflexivity.
Defined.

(** X8: two calls on the same input object each return a fresh object with
    the same entries; the input object and the first result are left intact
    by the second call. *)
Theorem enforce_heap_private_copies isprintable limit h site_data d :
  nth_error h site_data = Some d ->
  exists h1 h2,
    enforce_heap isprintable limit h site_data = Some (h1, length h) /\
    enforce_heap isprintable limit h1 site_data = Some (h2, S (length h)) /\
    nth_error h2 site_data = Some d /\
    nth_error h2 (length h) = Some (enforce_limit isprintable limit d) /\
    nth_error h2 (S (length h)) = Some (enforce_limit isprintable limit d).
Proof.
  intros Hd. assert (site_data < length h) as Hlt
    by (apply nth_error_Some; congruence).
  destruct (enforce_heap_spec isprintable limit h site_data d Hd)
    as [h1 [E1 [L1 [R1 O1]]]].
  assert (nth_error h1 site_data = Some d) as Hd1 by (rewrite O1 by lia; exact Hd).
  destruct (enforce_heap_spec isprintable limit h1 site_data d Hd1)
    as [h2 [E2 [L2 [R2 O2]]]].
  rewrite L1 in E2, R2, O2.
  exists h1, h2. split; [exact E1|]. split; [exact E2|].
  split; [rewrite O2 by lia; exact Hd1|]. split; [|exact R2].
  rewrite O2 by lia. exact R1.
Qed.

Lemma enforce_heap_private_copies_witness :
  nth_error [sample_corpus] 0 = Some sample_corpus /\
  exists h1 h2,
    enforce_heap all_printable 25 [sample_corpus] 0 = Some (h1, 1) /\
    enforce_heap all_printable 25 h1 0 = Some (h2, 2) /\
    nth_error h2 0 = Some sample_corpus /\
    nth_error h2 1 = Some (enforce_limit all_printable 25 sample_corpus) /\
    nth_error h2 2 = Some (enforce_limit all_printable 25 sample_corpus).
Proof.
  split; [reflexivity|].
  exact (enforce_heap_private_copies all_printable 25 [sample_corpus] 0
           sample_corpus eq_refl).
Defined.

(** X9: nothing is deleted exactly when the input fits the budget or is
    empty; an over-budget non-empty dict always loses at least its longest
    entry. *)
Theorem enforce_evicts_nothing_iff isprintable limit site_data :
  snd (enforce_trace isprintable limit site_data) = [] <->
  ((str_size isprintable site_data <= limit)%Z \/ site_data = []).
Proof.
  unfold enforce_trace.
  destruct (Z.gtb_spec (str_size isprintable site_data) limit) as [Hgt|Hle].
  - destruct site_data as [|e d].
    + simpl. split; auto.
    + pose proof (Permutation_length (sort_desc_perm (e :: d))) as L.
      destruct (sort_desc (e :: d)) as [|[url text] rest]; [discriminate|].
      simpl. destruct (Z.leb_spec (str_size isprintable (e :: d)) limit); [lia|].
      destruct (evict_loop _ _ rest _). simpl.
      split; [discriminate|]. intros [Hs|Hs]; [lia|discriminate].
  - simpl. split; auto.
Qed.

(** X10: when the whole corpus fits the budget, a successful answer lists
    every key of the corpus as a source, in insertion order. *)
Theorem ask_fitting_corpus_all_sources isprintable WEBSITE client_parse question
    site_data res :
  (str_size isprintable site_data <= MAX_TEXT_LENGTH)%Z ->
  ask_question_text isprintable WEBSITE client_parse question site_data = Ok res ->
  sources res = map fst site_data.
Proof.
  intros Hle H. apply ask_success_sources in H. rewrite H.
  unfold _enforce_site_data_limit, enforce_limit, enforce_trace.
  destruct (Z.gtb_spec (str_size isprintable site_data) MAX_TEXT_LENGTH); [lia|].
  reflexivity.
Qed.

Lemma ask_fitting_corpus_all_sources_witness :
  exists res,
    (str_size all_printable sample_corpus <= MAX_TEXT_LENGTH)%Z /\
    ask_question_text all_printable None sample_client (lit "Who?") sample_corpus
      = Ok res /\
    sources res = map fst sample_corpus.
Proof.
  eexists. split; [vm_compute; discriminate|]. split; [vm_compute; reflexivity|].
  apply (ask_fitting_corpus_all_sources all_printable None sample_client (lit "Who?"));
    [vm_compute; discriminate | vm_compute; reflexivity].
Defined.

(** X11: every [HTTPException] the handler raises has status 400 and one of
    its two messages: question too long, or refusal. *)
Theorem ask_http_errors_are_400 isprintable WEBSITE client_parse utf8_decode body
    site_data code detail :
  ask_question isprintable WEBSITE client_parse utf8_decode body site_data
    = Err (HTTPException code detail) ->
  code = 400%Z /\ (detail = question_too_long_detail \/ detail = refusal_detail).
Proof.
  unfold ask_question, ask_question_text, answer_question, assemble_answer.
  destruct (utf8_decode body) as [q|]; [|discriminate].
  destruct (Z.of_nat (length q) >? 500)%Z.
  - intros Herr; inversion Herr; auto.
  - destruct (client_parse _) as [resp|]; [|discriminate].
    destruct (nth_error (choices resp) 0) as [c|]; [|discriminate].
    destruct (py_truthy (refusal (message c))).
    + intros Herr; inversion Herr; auto.
    + destruct (usage resp); discriminate.
Qed.

Lemma ask_http_errors_are_400_witness :
  ask_question all_printable None
    (fun _ => Some (sample_completion (Some (lit "No."))))
    (fun b => Some (map (fun x => N.of_nat (Byte.to_nat x)) b))
    [Byte.x48; Byte.x69] sample_corpus
    = Err (HTTPException 400 refusal_detail) /\
  400%Z = 400%Z /\ (refusal_detail = question_too_long_detail \/ refusal_detail = refusal_detail).
Proof.
  assert (E : ask_question all_printable None
    (fun _ => Some (sample_completion (Some (lit "No."))))
    (fun b => Some (map (fun x => N.of_nat (Byte.to_nat x)) b))
    [Byte.x48; Byte.x69] sample_corpus
    = Err (HTTPException 400 refusal_detail)) by (vm_compute; reflexivity).
  split; [exact E|]. exact (ask_http_errors_are_400 _ _ _ _ _ _ _ _ E).
Defined.

(** X12: a successful reply echoes the decoded body as [user_question], and
    that question has at most 500 code points. *)
Theorem ask_success_echoes_question isprintable WEBSITE client_parse utf8_decode body
    site_data res :
  ask_question isprintable WEBSITE client_parse utf8_decode body site_data = Ok res ->
  utf8_decode body = Some (user_question res) /\ length (user_question res) <= 500.
Proof.
  unfold ask_question, ask_question_text, answer_question, assemble_answer.
  destruct (utf8_decode body) as [q|]; [|discriminate].
  destruct (Z.gtb_spec (Z.of_nat (length q)) 500); [discriminate|].
  destruct (client_parse _) as [resp|]; [|discriminate].
  destruct (nth_error (choices resp) 0) as [c|]; [|discriminate].
  destruct (py_truthy (refusal (message c))); [discriminate|].
  destruct (usage resp); [|discriminate].
  intros Hok; inversion Hok; subst; simpl. split; [reflexivity|lia].
Qed.

Lemma ask_success_echoes_question_witness :
  exists res,
    ask_question all_printable None sample_client
      (fun b => Some (map (fun x => N.of_nat (Byte.to_nat x)) b))
      [Byte.x48; Byte.x69] sample_corpus = Ok res /\
    (fun b => Some (map (fun x => N.of_nat (Byte.to_nat x)) b))
      [Byte.x48; Byte.x69] = Some (user_question res) /\
    length (user_question res) <= 500.
Proof.
  eexists. split; [vm_compute; reflexivity|].
  apply (ask_success_echoes_question all_printable None sample_client
           (fun b => Some (map (fun x => N.of_nat (Byte.to_nat x)) b))
           [Byte.x48; Byte.x69] sample_corpus).
  vm_compute. reflexivity.
Defined.

(** X13: trimming composes with the handler: asking over an already trimmed
    corpus gives the same outcome as asking over the full corpus. *)
Theorem ask_pretrimmed_same isprintable WEBSITE client_parse question site_data :
  dict_wf site_data = true ->
  ask_question_text isprintable WEBSITE client_parse question
    (_enforce_site_data_limit isprintable site_data)
  = ask_question_text isprintable WEBSITE client_parse question site_data.
Proof.
  intros Hwf. unfold ask_question_text, answer_question, _enforce_site_data_limit.
  rewrite enforce_limit_idem by exact Hwf. reflexivity.
Qed.

Lemma ask_pretrimmed_same_witness :
  dict_wf tied_corpus = true /\
  ask_question_text all_printable None sample_client (lit "Who?")
    (_enforce_site_data_limit all_printable tied_corpus)
  = ask_question_text all_printable None sample_client (lit "Who?") tied_corpus.
Proof.
  split; [reflexivity|]. apply ask_pretrimmed_same. reflexivity.
Defined.

(** X14: the returned dict is the input with the deleted entries filtered
    out (order and values kept), and every deleted entry was in the input. *)
Theorem enforce_is_filter isprintable limit site_data :
  let '(r, ev) := enforce_trace isprintable limit site_data in
  r = filter (not_evicted ev) site_data /\ incl ev site_data.
Proof.
  pose proof (enforce_trace_filter isprintable limit site_data) as F.
  assert (incl (snd (enforce_trace isprintable limit site_data)) site_data) as I.
  { unfold enforce_trace.
    destruct (str_size isprintable site_data >? limit)%Z; [|simpl; intros x []].
    pose proof (evict_loop_prefix limit (sort_desc site_data)
                  (str_size isprintable site_data) site_data) as P.
    simpl in P. intros x Hx. rewrite P in Hx.
    apply (Permutation_in _ (sort_desc_perm site_data)).
    rewrite <- (firstn_skipn (length (snd (evict_loop limit
                  (str_size isprintable site_data) (sort_desc site_data) site_data)))
                  (sort_desc site_data)).
    apply in_or_app. left; exact Hx. }
  destruct (enforce_trace isprintable limit site_data) as [r ev]. auto.
Qed.
